(** * gen-api-models: rendering of operations and response decoders

    A shallow embedding of [src/commands/gen-api-models/render.ts]
    ([renderOperation], [renderDecoderCode], [getDecoderForResponse]) and of
    the data model of [src/commands/gen-api-models/types.ts].

    JavaScript strings are modelled by [string]: one [ascii] stands for one
    code unit, so [length] is [.length] and [get 0] is [s[0]].  Template
    literals are modelled by [template], the concatenation of their parts. *)

From Stdlib Require Import List String Ascii Bool Arith Lia DecimalString.
From Stdlib Require Import DecimalNat.
Import ListNotations.
Local Open Scope string_scope.
Local Open Scope list_scope.

(** ** JavaScript primitives used by the renderer *)

Module Js.

(** The double quote and the line feed, the two characters of the
    templates that are written here by their code. *)
Definition dq : string := String (ascii_of_nat 34) EmptyString.
Definition nl : string := String (ascii_of_nat 10) EmptyString.

(** A template literal: its parts, concatenated. *)
Definition template (parts : list string) : string :=
  fold_right append EmptyString parts.

(** [`${i}`] for an array index [i]. *)
Definition of_index (i : nat) : string :=
  NilEmpty.string_of_uint (Nat.to_uint i).

(** [Array.prototype.join]. *)
Fixpoint join (sep : string) (l : list string) : string :=
  match l with
  | [] => EmptyString
  | [x] => x
  | x :: t => x ++ sep ++ join sep t
  end.

(** [Array.prototype.map] with the callback receiving the index. *)
Fixpoint map_from {A B : Type} (f : A -> nat -> B) (i : nat) (l : list A)
  : list B :=
  match l with
  | [] => []
  | x :: t => f x i :: map_from f (S i) t
  end.

Definition map {A B : Type} (f : A -> nat -> B) (l : list A) : list B :=
  map_from f 0 l.

(** [Array.prototype.reduce] with an initial value, the callback receiving
    the accumulator, the element and the index. *)
Fixpoint reduce_from {A B : Type} (f : B -> A -> nat -> B) (i : nat)
  (l : list A) (acc : B) : B :=
  match l with
  | [] => acc
  | x :: t => reduce_from f (S i) t (f acc x i)
  end.

Definition reduce {A B : Type} (f : B -> A -> nat -> B) (l : list A)
  (init : B) : B :=
  reduce_from f 0 l init.

(** [String.prototype.includes] and [String.prototype.replace] with a
    string pattern: the first occurrence only is replaced. *)
Definition includes (pat s : string) : bool :=
  match index 0 pat s with
  | Some _ => true
  | None => false
  end.

Definition replace (pat rep s : string) : string :=
  match index 0 pat s with
  | Some i =>
      substring 0 i s ++ rep
        ++ substring (i + length pat) (length s - (i + length pat)) s
  | None => s
  end.

End Js.

Import Js.

(** ** Data model ([types.ts]) *)

Record ITuple3 (A B C : Type) : Type := Tuple3 {
  e1 : A;
  e2 : B;
  e3 : C
}.
Arguments Tuple3 {A B C} _ _ _.
Arguments e1 {A B C} _.
Arguments e2 {A B C} _.
Arguments e3 {A B C} _.

Inductive SupportedMethod : Type :=
| get_
| post
| put
| delete.

Definition method_text (m : SupportedMethod) : string :=
  match m with
  | get_ => "get"
  | post => "post"
  | put => "put"
  | delete => "delete"
  end.

Record IParameterInfo : Type := {
  name : string;
  type : string;
  in_ : string;
  headerName : option string
}.

(** A response: status code, payload type name, header names. *)
Definition Response : Type := ITuple3 string string (list string).

Record IOperationInfo : Type := {
  method : SupportedMethod;
  operationId : string;
  parameters : list IParameterInfo;
  responses : list Response;
  headers : list string;
  importedTypes : list string;
  path : string;
  consumes : option string;
  produces : option string
}.

(** ** The helpers imported from [../../lib/utils]

    Their module is not part of the sources at hand: the renderer is
    embedded over any implementation of them. *)

Class Utils : Type := {
  capitalize : string -> string;
  uncapitalize : string -> string;
  toUnionOfLiterals : list string -> string;
  withGenerics : string -> list string -> string
}.

(** ** The renderer ([render.ts]) *)

Section Render.

Context {U : Utils}.

(** [getDecoderForResponse] *)
Definition getDecoderForResponse (resp : Response) (varName : string)
  : string :=
  let status := e1 resp in
  let type := e2 resp in
  let headers := e3 resp in
  if String.eqb type "Error"
  then template
         ["r.basicErrorResponseDecoder<"; status; ">("; status; ")"]
  else template
         [varName; "["; status; "].name === "; dq; "undefined"; dq; " "; nl;
          "        ? r.constantResponseDecoder<undefined, "; status; ", ";
          toUnionOfLiterals headers; ">("; status; ", undefined) "; nl;
          "        : r.ioResponseDecoder<"; status; ", (typeof "; varName;
          "["; status; "])["; dq; "_A"; dq; "], (typeof "; varName; "[";
          status; "])["; dq; "_O"; dq; "], "; toUnionOfLiterals headers;
          ">("; status; ", "; varName; "["; status; "])"].

(** The predicate of the success lookup:
    [({ e1 }) => e1.length === 3 && e1[0] === "2"]. *)
Definition isSuccessStatus (r : Response) : bool :=
  Nat.eqb (String.length (e1 r)) 3
  && match get 0 (e1 r) with
     | Some c => Ascii.eqb c "2"%char
     | None => false
     end.

Definition firstSuccessType (rs : list Response) : option Response :=
  find isSuccessStatus rs.

Definition typeVarName : string := "type".

Definition decoderFunctionName (operationId : string) : string :=
  template [operationId; "Decoder"].

Definition defaultDecoderFunctionName (operationId : string) : string :=
  template [operationId; "DefaultDecoder"].

Definition decoderName (statusCode : string) : string :=
  template ["d"; statusCode].

(** The callback of [decoderDefinitions]: one [const] binding. *)
Definition decoderDefinition (r : Response) (i : nat) : string :=
  template
    [nl; "    const "; decoderName (e1 r); " = (";
     getDecoderForResponse (Tuple3 (e1 r) (e2 r) (e3 r)) typeVarName;
     ") as r.ResponseDecoder<r.IResponseType<"; e1 r; ", A"; of_index i;
     ", "; toUnionOfLiterals (e3 r); ">>;"; nl; "  "].

Definition decoderDefinitions (rs : list Response) : string :=
  join EmptyString (Js.map decoderDefinition rs).

Definition composeStep (acc : string) (r : Response) (_ : nat) : string :=
  if String.eqb acc EmptyString
  then decoderName (e1 r)
  else template
         ["r.composeResponseDecoders("; acc; ", "; decoderName (e1 r); ")"].

Definition composedDecoders (rs : list Response) : string :=
  reduce composeStep rs EmptyString.

Definition responsesTGenerics (rs : list Response) : list string :=
  reduce
    (fun (p : list string) (_ : Response) i =>
       p ++ [template ["A"; of_index i]; template ["C"; of_index i]])
    rs [].

Definition responsesTGenericsWithDefaultTypes (rs : list Response)
  : list string :=
  reduce
    (fun (p : list string) (r : Response) i =>
       p ++ [template ["A"; of_index i; " = "; e2 r];
             template ["C"; of_index i; " = "; e2 r]])
    rs [].

Definition responsesTypeName (operationId : string) (rs : list Response)
  : string :=
  withGenerics (template [capitalize operationId; "ResponsesT"])
    (responsesTGenerics rs).

Definition responsesTypeNameWithDefaultTypes (operationId : string)
  (rs : list Response) : string :=
  withGenerics (template [capitalize operationId; "ResponsesT"])
    (responsesTGenericsWithDefaultTypes rs).

Definition decoderDefinitionName (operationId : string)
  (rs : list Response) : string :=
  withGenerics (decoderFunctionName operationId)
    (responsesTGenericsWithDefaultTypes rs).

Definition responsesTContent (rs : list Response) : list string :=
  Js.map
    (fun (r : Response) i =>
       template [e1 r; ": t.Type<A"; of_index i; ", C"; of_index i; ">"])
    rs.

Definition responsesT (operationId : string) (rs : list Response)
  : string :=
  template
    [nl; "    export type "; responsesTypeNameWithDefaultTypes operationId rs;
     " = {"; nl; "      "; join ", " (responsesTContent rs); nl; "    };";
     nl; "  "].

Definition responsesSuccessTContent (first : Response)
  (rs : list Response) : string :=
  reduce
    (fun (p : string) (r : Response) i =>
       if negb (String.eqb (e1 r) (e1 first))
       then p
       else template ["t.Type<A"; of_index i; ", C"; of_index i; ">"])
    rs EmptyString.

Definition defaultResponsesVarName (operationId : string) : string :=
  template [uncapitalize operationId; "DefaultResponses"].

(** The callback of the default-responses map: one entry. *)
Definition defaultResponseEntry (r : Response) : string :=
  template
    [e1 r; ": ";
     if String.eqb (e2 r) "undefined" then "t.undefined" else e2 r].

Definition defaultResponses (operationId : string) (rs : list Response)
  : string :=
  template
    [nl; "    export const "; defaultResponsesVarName operationId; " = {";
     nl; "      "; join ", " (List.map defaultResponseEntry rs); nl;
     "    };"; nl; "  "].

Definition returnType (rs : list Response) : string :=
  template
    ["r.ResponseDecoder<"; nl; "    ";
     join "|"
       (Js.map
          (fun (r : Response) i =>
             template
               ["r.IResponseType<"; e1 r; ", A"; of_index i; ", ";
                toUnionOfLiterals (e3 r); ">"])
          rs);
     nl; "  >"].

(** The text returned by [renderDecoderCode] once a success response
    [first] has been found. *)
Definition decoderBlock (operationId : string) (rs : list Response)
  (first : Response) : string :=
  template
    [nl; "      "; defaultResponses operationId rs; nl;
     "      "; responsesT operationId rs; nl;
     "      export function "; decoderDefinitionName operationId rs;
     "(overrideTypes: Partial<"; responsesTypeName operationId rs; "> | ";
     responsesSuccessTContent first rs; " | undefined = {}): ";
     returnType rs; " {"; nl;
     "        const isDecoder = (d: any): d is ";
     responsesSuccessTContent first rs; " =>"; nl;
     "          typeof d["; dq; "_A"; dq; "] !== "; dq; "undefined"; dq; ";";
     nl; nl;
     "        const "; typeVarName; " = {"; nl;
     "          ...("; defaultResponsesVarName operationId;
     " as unknown as "; responsesTypeName operationId rs; "),"; nl;
     "          ...(isDecoder(overrideTypes) ? { "; e1 first;
     ": overrideTypes } : overrideTypes)"; nl;
     "        };"; nl; nl;
     "        "; decoderDefinitions rs; nl;
     "        return "; composedDecoders rs; nl;
     "      }"; nl; nl;
     "      // Decodes the success response with the type defined in the specs";
     nl;
     "      export const "; defaultDecoderFunctionName operationId;
     " = () => "; decoderFunctionName operationId; "();"].

(** [renderDecoderCode] *)
Definition renderDecoderCode (operationInfo : IOperationInfo) : string :=
  let rs := responses operationInfo in
  match firstSuccessType rs with
  | None => EmptyString
  | Some first => decoderBlock (operationId operationInfo) rs first
  end.

(** [escapeIdentifier], local to [renderOperation]. *)
Definition escapeIdentifier (id : string) : string :=
  if includes "?" id
  then template [dq; replace "?" EmptyString id; dq; "?"]
  else template [dq; id; dq].

(** The callback of [paramsCode]: one property of the parameter object. *)
Definition paramCode (param : IParameterInfo) : string :=
  template ["readonly "; escapeIdentifier (name param); ": "; type param].

Definition paramsCode (ps : list IParameterInfo) : string :=
  join "," (List.map paramCode ps).

Definition requestType (m : SupportedMethod) : string :=
  template ["r.I"; capitalize (method_text m); "ApiRequestType"].

Definition headersCode (hs : list string) : string :=
  if Nat.ltb 0 (List.length hs)
  then join "|" (List.map (fun h => template [dq; h; dq]) hs)
  else "never".

Definition responsesType (rs : list Response) : string :=
  join "|"
    (List.map
       (fun r : Response =>
          template
            ["r.IResponseType<"; e1 r; ", "; e2 r; ", ";
             toUnionOfLiterals (e3 r); ">"])
       rs).

Definition requestTypeDefinition (operationInfo : IOperationInfo) : string :=
  template
    ["export type "; capitalize (operationId operationInfo); "T = ";
     requestType (method operationInfo); "<{";
     paramsCode (parameters operationInfo); "}, ";
     headersCode (headers operationInfo); ", never, ";
     responsesType (responses operationInfo); ">;"; nl; "  "].

(** [renderOperation] *)
Definition renderOperation (operationInfo : IOperationInfo)
  (generateResponseDecoders : bool) : string :=
  let responsesDecoderCode :=
    if generateResponseDecoders
    then renderDecoderCode operationInfo
    else EmptyString in
  template
    [nl;
     "    /****************************************************************";
     nl; "     * "; operationId operationInfo; nl; "     */"; nl; nl;
     "    // Request type definition"; nl; "    ";
     requestTypeDefinition operationInfo; responsesDecoderCode].

End Render.

(** ** The set of operations ([renderAllOperations])

    [Tuple2] of ts-commons, the [Set] of imported names and the formatter
    of the generated file. *)

Module T2.

Record ITuple2 (A B : Type) : Type := Tuple2 {
  e1 : A;
  e2 : B
}.
Arguments Tuple2 {A B} _ _.
Arguments e1 {A B} _.
Arguments e2 {A B} _.

End T2.

Module JsSet.

(** [Set.prototype.add] on the values in order of insertion: a value that
    is already there is not added again. *)
Definition add (s : list string) (x : string) : list string :=
  if existsb (String.eqb x) s then s else s ++ [x].

(** [Array.from(new Set<string>(values).values())]. *)
Definition from (values : list string) : list string :=
  fold_left add values [].

End JsSet.

(** [prettier.format] with the typescript parser, which is not part of
    the sources: it returns the formatted text or fails. *)
Class Prettier : Type := {
  prettier_format : string -> option string
}.

Section RenderAll.

Context {U : Utils} {P : Prettier}.

(** [formatCode] *)
Definition formatCode (code : string) : option string :=
  prettier_format code.

(** The filter of [renderAllOperations]:
    [typeof operationInfo !== "undefined"]. *)
Fixpoint definedOperations (l : list (option IOperationInfo))
  : list IOperationInfo :=
  match l with
  | [] => []
  | Some operationInfo :: t => operationInfo :: definedOperations t
  | None :: t => definedOperations t
  end.

(** The code of each operation with the types it imports. *)
Definition operationsTypes (allOperationInfos : list (option IOperationInfo))
  (generateResponseDecoders : bool)
  : list (T2.ITuple2 string (list string)) :=
  List.map
    (fun operationInfo =>
       T2.Tuple2 (renderOperation operationInfo generateResponseDecoders)
         (importedTypes operationInfo))
    (definedOperations allOperationInfos).

(** The set of referenced definitions. *)
Definition operationsImports
  (allOperationInfos : list (option IOperationInfo))
  (generateResponseDecoders : bool) : list string :=
  JsSet.from
    (reduce
       (fun (p : list string) (t : T2.ITuple2 string (list string)) _ =>
          p ++ T2.e2 t)
       (operationsTypes allOperationInfos generateResponseDecoders) []).

(** The concatenated generated code. *)
Definition operationTypesCode
  (allOperationInfos : list (option IOperationInfo))
  (generateResponseDecoders : bool) : string :=
  join nl
    (List.map T2.e1
       (operationsTypes allOperationInfos generateResponseDecoders)).

(** The callback of the imports: one import statement. *)
Definition importStatement (i : string) : string :=
  template ["import { "; i; " } from "; dq; "./"; i; dq; ";"].

(** [renderAllOperations] *)
Definition renderAllOperations
  (allOperationInfos : list (option IOperationInfo))
  (generateResponseDecoders : bool) : option string :=
  formatCode
    (template
       [nl; "        // DO NOT EDIT THIS FILE"; nl;
        "        // This file has been generated by gen-api-models"; nl;
        "        // tslint:disable:max-union-size"; nl;
        "        // tslint:disable:no-identical-functions"; nl;
        "  "; nl;
        "        ";
        if generateResponseDecoders
        then template ["import * as t from "; dq; "io-ts"; dq; ";"]
        else EmptyString;
        nl; "  "; nl;
        "        import * as r from "; dq;
        "@pagopa/ts-commons/lib/requests"; dq; ";"; nl;
        "  "; nl;
        "        ";
        join (template [nl; nl])
          (List.map importStatement
             (operationsImports allOperationInfos generateResponseDecoders));
        nl; "  "; nl;
        "        ";
        operationTypesCode allOperationInfos generateResponseDecoders;
        nl; "      "]).

End RenderAll.

(** ** An implementation of the helpers, for running the renderer *)

Module SpecUtils.

Definition upper (c : ascii) : ascii :=
  let n := nat_of_ascii c in
  if Nat.leb 97 n && Nat.leb n 122 then ascii_of_nat (n - 32) else c.

Definition lower (c : ascii) : ascii :=
  let n := nat_of_ascii c in
  if Nat.leb 65 n && Nat.leb n 90 then ascii_of_nat (n + 32) else c.

(** Modelled from the spec: [capitalize] of [lib/utils], a first-character
    case transform, the identity on the empty string. *)
Definition capitalize (s : string) : string :=
  match s with
  | EmptyString => EmptyString
  | String c rest => String (upper c) rest
  end.

(** Modelled from the spec: [uncapitalize] of [lib/utils], a
    first-character case transform, the identity on the empty string. *)
Definition uncapitalize (s : string) : string :=
  match s with
  | EmptyString => EmptyString
  | String c rest => String (lower c) rest
  end.

(** Modelled from the spec: [toUnionOfLiterals] of [lib/utils], the text
    [never] on the empty sequence, else the union of the string literals of
    the names, in order and without deduplication. *)
Definition toUnionOfLiterals (names : list string) : string :=
  match names with
  | [] => "never"
  | _ => join "|" (List.map (fun n => template [dq; n; dq]) names)
  end.

(** Modelled from the spec: [withGenerics] of [lib/utils], the base name
    unchanged when there is no parameter expression, else the base name
    applied to the comma-joined parameter expressions. *)
Definition withGenerics (baseName : string) (paramExprs : list string)
  : string :=
  match paramExprs with
  | [] => baseName
  | _ => template [baseName; "<"; join ", " paramExprs; ">"]
  end.

Definition utils : Utils :=
  Build_Utils capitalize uncapitalize toUnionOfLiterals withGenerics.

End SpecUtils.

(** ** Concrete operations *)

Module Scenarios.

Definition response (status payload : string) (hdrs : list string)
  : Response :=
  Tuple3 status payload hdrs.

Definition operation (id : string) (ps : list IParameterInfo)
  (rs : list Response) : IOperationInfo :=
  {| method := get_; operationId := id; parameters := ps; responses := rs;
     headers := []; importedTypes := []; path := "/things";
     consumes := None; produces := None |}.

Definition limitParam : IParameterInfo :=
  {| name := "limit?"; type := "number"; in_ := "query";
     headerName := None |}.

Definition idParam : IParameterInfo :=
  {| name := "id"; type := "string"; in_ := "path"; headerName := None |}.

(** Scenario A: a success, an empty body and an error. *)
Definition getThing : IOperationInfo :=
  operation "getThing" [limitParam; idParam]
    [response "200" "Thing" []; response "404" "undefined" [];
     response "500" "Error" []].

(** Scenario B: no 2xx response. *)
Definition failing : IOperationInfo :=
  operation "failing" [] [response "500" "Error" []].

(** Two success responses, the larger status code first. *)
Definition unsorted : IOperationInfo :=
  operation "unsorted" []
    [response "404" "undefined" []; response "204" "undefined" [];
     response "200" "Thing" []].

(** A status code that is a range, as OpenAPI 3 writes it. *)
Definition ranged : IOperationInfo :=
  operation "ranged" [] [response "2XX" "Thing" []].

(** The same status code twice. *)
Definition twice : IOperationInfo :=
  operation "twice" []
    [response "200" "Thing" []; response "200" "Other" []].

End Scenarios.

(** ** Concrete sets of operations *)

Module Sets.

(** A formatter that accepts every text and leaves it as it is. *)
Definition keep : Prettier := Build_Prettier (fun code => Some code).

Definition importing (id : string) (types : list string)
  : IOperationInfo :=
  {| method := get_; operationId := id; parameters := [];
     responses := [Tuple3 "200" "Thing" []]; headers := [];
     importedTypes := types; path := "/things";
     consumes := None; produces := None |}.

End Sets.

(** ** Words of the specification *)

(** A status code qualifies as a success when it is three characters long
    and its first character is [2]. *)
Definition SuccessStatus (s : string) : Prop :=
  String.length s = 3 /\ get 0 s = Some "2"%char.

(** The three-decimal-digit convention for status codes. *)
Definition isDigit (c : ascii) : bool :=
  Nat.leb 48 (nat_of_ascii c) && Nat.leb (nat_of_ascii c) 57.

Definition threeDigitCode (s : string) : bool :=
  Nat.eqb (String.length s) 3 && forallb isDigit (list_ascii_of_string s).

(** An operation has a qualifying success response. *)
Definition hasSuccess (op : IOperationInfo) : Prop :=
  exists r, In r (responses op) /\ SuccessStatus (e1 r).

(** The character [?] does not occur in a text. *)
Definition noQuestion (s : string) : Prop :=
  ~ In "?"%char (list_ascii_of_string s).

(** Two operations agree on everything the renderer reads: the method, the
    identifier, the request headers, the responses, and the name and the
    type of each parameter. *)
Definition sameRendered (a b : IOperationInfo) : Prop :=
  method a = method b
  /\ operationId a = operationId b
  /\ headers a = headers b
  /\ responses a = responses b
  /\ List.map (fun p => (name p, type p)) (parameters a)
     = List.map (fun p => (name p, type p)) (parameters b).

(** A text occurs inside another one. *)
Definition occurs (piece s : string) : Prop :=
  exists before after, s = (before ++ piece ++ after)%string.

(** ** Facts about strings, templates and the array primitives *)

Section StringFacts.

Lemma append_nil_right (s : string) : (s ++ EmptyString)%string = s.
Proof. induction s as [|c s IH]; simpl; [reflexivity | now rewrite IH]. Qed.

Lemma append_associative (a b c : string) :
  ((a ++ b) ++ c = a ++ b ++ c)%string.
Proof. induction a as [|x a IH]; simpl; [reflexivity | now rewrite IH]. Qed.

Lemma length_append (a b : string) :
  String.length (a ++ b) = String.length a + String.length b.
Proof. induction a as [|x a IH]; simpl; [reflexivity | now rewrite IH]. Qed.

Lemma template_cons (x : string) (l : list string) :
  template (x :: l) = (x ++ template l)%string.
Proof. reflexivity. Qed.

Lemma template_app (l1 l2 : list string) :
  template (l1 ++ l2) = (template l1 ++ template l2)%string.
Proof.
  induction l1 as [|x l1 IH]; simpl; [reflexivity|].
  change ((x ++ template (l1 ++ l2)%list)%string
          = ((x ++ template l1) ++ template l2)%string).
  now rewrite IH, append_associative.
Qed.

(** The parts [k], ..., [k + n - 1] of a template occur in its text. *)
Lemma occurs_template (k n : nat) (l : list string) :
  occurs (template (firstn n (skipn k l))) (template l).
Proof.
  exists (template (firstn k l)), (template (skipn n (skipn k l))).
  rewrite <- !template_app, !firstn_skipn. reflexivity.
Qed.

(** Part [k] of a template occurs in its text. *)
Lemma occurs_part (k : nat) (l : list string) (x : string) :
  nth_error l k = Some x -> occurs x (template l).
Proof.
  intros H. destruct (nth_error_split l k H) as [l1 [l2 [-> _]]].
  exists (template l1), (template l2).
  now rewrite template_app, template_cons.
Qed.

Lemma occurs_trans (a b c : string) : occurs a b -> occurs b c -> occurs a c.
Proof.
  intros [p1 [q1 ->]] [p2 [q2 ->]].
  exists (p2 ++ p1)%string, (q1 ++ q2)%string.
  now rewrite !append_associative.
Qed.

Lemma join_nosep (l : list string) : join EmptyString l = template l.
Proof.
  induction l as [|x [|y t] IH]; [reflexivity | |].
  - simpl. now rewrite append_nil_right.
  - change ((x ++ join EmptyString (y :: t))%string
            = (x ++ template (y :: t))%string).
    now rewrite IH.
Qed.

Lemma map_from_app {A B : Type} (f : A -> nat -> B) (l1 l2 : list A) i :
  map_from f i (l1 ++ l2)
  = map_from f i l1 ++ map_from f (i + List.length l1) l2.
Proof.
  revert i; induction l1 as [|x l1 IH]; intros i; simpl.
  - now rewrite Nat.add_0_r.
  - now rewrite IH, Nat.add_succ_r.
Qed.

Lemma map_from_length {A B : Type} (f : A -> nat -> B) (l : list A) i :
  List.length (map_from f i l) = List.length l.
Proof. revert i; induction l; intros; simpl; auto. Qed.

Lemma map_from_nth {A B : Type} (f : A -> nat -> B) (l : list A) i k x :
  nth_error l k = Some x -> nth_error (map_from f i l) k = Some (f x (i + k)).
Proof.
  revert i k; induction l as [|y l IH]; intros i [|k]; simpl; try discriminate.
  - intros [= ->]. now rewrite Nat.add_0_r.
  - intros H. rewrite (IH (S i) k H). f_equal. f_equal. lia.
Qed.

(** A reduction that appends to its accumulator is a flattened map. *)
Lemma reduce_from_append {A B : Type} (g : A -> nat -> list B)
  (l : list A) i (acc : list B) :
  reduce_from (fun p r j => p ++ g r j) i l acc
  = acc ++ List.concat (map_from g i l).
Proof.
  revert i acc; induction l as [|x l IH]; intros i acc; simpl.
  - now rewrite app_nil_r.
  - now rewrite IH, app_assoc.
Qed.

Lemma concat_pairs_length {A B : Type} (a c : A -> nat -> B)
  (l : list A) i :
  List.length (List.concat (map_from (fun r j => [a r j; c r j]) i l))
  = 2 * List.length l.
Proof. revert i; induction l as [|x l IH]; intros i; simpl; [|rewrite IH]; lia. Qed.

Lemma concat_pairs_nth {A B : Type} (a c : A -> nat -> B)
  (l : list A) i k x :
  nth_error l k = Some x ->
  nth_error (List.concat (map_from (fun r j => [a r j; c r j]) i l)) (2 * k)
  = Some (a x (i + k))
  /\ nth_error (List.concat (map_from (fun r j => [a r j; c r j]) i l))
       (2 * k + 1)
     = Some (c x (i + k)).
Proof.
  revert i k; induction l as [|y l IH]; intros i [|k]; try discriminate.
  - intros [= ->]. rewrite Nat.add_0_r. now split.
  - intros H. destruct (IH (S i) k H) as [Ha Hc].
    replace (2 * S k) with (S (S (2 * k))) by lia.
    replace (i + S k) with (S i + k) by lia.
    now split.
Qed.

Lemma prefix_question (c : ascii) (s : string) :
  prefix "?" (String c s) = if ascii_dec "?" c then true else false.
Proof.
  change (prefix "?" (String c s))
    with (if ascii_dec "?" c then prefix EmptyString s else false).
  destruct (ascii_dec "?" c); [|reflexivity]. now destruct s.
Qed.

Lemma index_question_none (s : string) :
  noQuestion s -> index 0 "?" s = None.
Proof.
  unfold noQuestion. induction s as [|c s IH]; intros H.
  - reflexivity.
  - cbn [index]. rewrite prefix_question.
    destruct (ascii_dec "?" c) as [E|E].
    + exfalso. apply H. now left.
    + rewrite IH; [reflexivity|]. intros Hin. apply H. now right.
Qed.

Lemma index_question_first (pre post : string) :
  noQuestion pre ->
  index 0 "?" (pre ++ "?" ++ post) = Some (String.length pre).
Proof.
  unfold noQuestion. induction pre as [|c pre IH]; intros H.
  - cbn [append index]. now rewrite prefix_question.
  - cbn [append index]. rewrite prefix_question.
    destruct (ascii_dec "?" c) as [E|E].
    + exfalso. apply H. now left.
    + cbn [append] in IH. rewrite IH; [reflexivity|].
      intros Hin. apply H. now right.
Qed.

Lemma question_split (s : string) :
  In "?"%char (list_ascii_of_string s) ->
  exists pre post, s = (pre ++ "?" ++ post)%string /\ noQuestion pre.
Proof.
  induction s as [|c s IH]; intros H; [destruct H|].
  destruct (ascii_dec "?" c) as [E|E].
  - exists EmptyString, s. subst c. split; [reflexivity | intros []].
  - destruct H as [H|H]; [congruence|].
    destruct (IH H) as [pre [post [-> Hpre]]].
    exists (String c pre), post. split; [reflexivity|].
    intros [Hc|Hin]; [congruence | now apply Hpre].
Qed.

Lemma substring_all (s : string) : substring 0 (String.length s) s = s.
Proof. induction s as [|c s IH]; simpl; [reflexivity | now rewrite IH]. Qed.

Lemma substring_head (pre rest : string) :
  substring 0 (String.length pre) (pre ++ rest) = pre.
Proof.
  induction pre as [|c pre IH]; simpl.
  - now destruct rest.
  - now rewrite IH.
Qed.

Lemma substring_tail (pre rest : string) (m : nat) :
  substring (String.length pre) m (pre ++ rest) = substring 0 m rest.
Proof.
  induction pre as [|c pre IH]; simpl; [reflexivity|].
  destruct m; apply IH.
Qed.

Lemma includes_question_false (s : string) :
  noQuestion s -> includes "?" s = false.
Proof. intros H. unfold includes. now rewrite index_question_none. Qed.

Lemma includes_question_true (pre post : string) :
  noQuestion pre -> includes "?" (pre ++ "?" ++ post) = true.
Proof. intros H. unfold includes. now rewrite index_question_first. Qed.

Lemma replace_question_first (pre post : string) :
  noQuestion pre ->
  replace "?" EmptyString (pre ++ "?" ++ post) = (pre ++ post)%string.
Proof.
  intros H. unfold replace. rewrite index_question_first by assumption.
  rewrite substring_head. cbn [append].
  change (String "?" post) with ("?" ++ post)%string.
  rewrite <- append_associative.
  replace (String.length pre + String.length "?")
    with (String.length (pre ++ "?")) by apply length_append.
  rewrite substring_tail, !length_append.
  replace (String.length pre + String.length "?" + String.length post
           - (String.length pre + String.length "?"))
    with (String.length post) by lia.
  now rewrite substring_all.
Qed.

Lemma list_ascii_app (a b : string) :
  list_ascii_of_string (a ++ b)
  = (list_ascii_of_string a ++ list_ascii_of_string b)%list.
Proof. induction a as [|c a IH]; simpl; [reflexivity | now rewrite IH]. Qed.

Lemma noQuestion_app (a b : string) :
  noQuestion a -> noQuestion b -> noQuestion (a ++ b).
Proof.
  unfold noQuestion. rewrite list_ascii_app, in_app_iff. tauto.
Qed.

End StringFacts.

(** ** The success lookup *)

Lemma isSuccessStatus_spec (r : Response) :
  isSuccessStatus r = true <-> SuccessStatus (e1 r).
Proof.
  unfold isSuccessStatus, SuccessStatus.
  rewrite andb_true_iff, Nat.eqb_eq.
  destruct (get 0 (e1 r)) as [c|].
  - rewrite Ascii.eqb_eq. split; intros [H1 H2]; split; congruence.
  - split; intros [_ H]; discriminate.
Qed.

Lemma isSuccessStatus_false (r : Response) :
  isSuccessStatus r = false <-> ~ SuccessStatus (e1 r).
Proof.
  rewrite <- isSuccessStatus_spec.
  destruct (isSuccessStatus r); split; intros; congruence.
Qed.

Lemma firstSuccessType_none (rs : list Response) :
  (forall r, In r rs -> ~ SuccessStatus (e1 r)) ->
  firstSuccessType rs = None.
Proof.
  unfold firstSuccessType. induction rs as [|x rs IH]; intros H; simpl.
  - reflexivity.
  - assert (Hx : isSuccessStatus x = false)
      by (apply isSuccessStatus_false, H; now left).
    rewrite Hx. apply IH. intros r Hr. apply H. now right.
Qed.

Lemma firstSuccessType_first (pre post : list Response) (r : Response) :
  (forall x, In x pre -> ~ SuccessStatus (e1 x)) ->
  SuccessStatus (e1 r) ->
  firstSuccessType (pre ++ r :: post) = Some r.
Proof.
  unfold firstSuccessType. induction pre as [|x pre IH]; intros H Hr; simpl.
  - apply isSuccessStatus_spec in Hr. now rewrite Hr.
  - assert (Hx : isSuccessStatus x = false)
      by (apply isSuccessStatus_false, H; now left).
    rewrite Hx. apply IH; [|assumption]. intros y Hy. apply H. now right.
Qed.

Lemma firstSuccessType_some (rs : list Response) (first : Response) :
  firstSuccessType rs = Some first ->
  In first rs /\ SuccessStatus (e1 first).
Proof.
  unfold firstSuccessType. intros H. apply find_some in H.
  now rewrite isSuccessStatus_spec in H.
Qed.

Lemma hasSuccess_first (op : IOperationInfo) :
  hasSuccess op -> exists first, firstSuccessType (responses op) = Some first.
Proof.
  intros [r [Hin Hr]]. unfold firstSuccessType.
  destruct (find isSuccessStatus (responses op)) as [x|] eqn:E.
  - now exists x.
  - apply isSuccessStatus_spec in Hr.
    rewrite (find_none _ _ E r Hin) in Hr. discriminate.
Qed.

Section RenderFacts.

Context {U : Utils}.

Lemma renderDecoderCode_found (op : IOperationInfo) (first : Response) :
  firstSuccessType (responses op) = Some first ->
  renderDecoderCode op = decoderBlock (operationId op) (responses op) first.
Proof. unfold renderDecoderCode. now intros ->. Qed.

(** C1. When no response of the operation has a status code of length 3
    whose first character is [2], [renderDecoderCode] returns the empty
    string: neither the default-responses map, nor the responses type, nor
    the decoder function is emitted. *)
Theorem no_success_no_decoder_block (op : IOperationInfo) :
  (forall r, In r (responses op) -> ~ SuccessStatus (e1 r)) ->
  renderDecoderCode op = EmptyString.
Proof.
  intros H. unfold renderDecoderCode.
  now rewrite (firstSuccessType_none _ H).
Qed.

(** C2. When the responses list has a qualifying success entry, the
    success response selected by [renderDecoderCode] is the first such
    entry in input order, and the bare-decoder shortcut of the emitted
    function maps that entry's status code to the supplied decoder. *)
Theorem first_success_in_input_order (op : IOperationInfo)
  (pre post : list Response) (r : Response) :
  responses op = pre ++ r :: post ->
  (forall x, In x pre -> ~ SuccessStatus (e1 x)) ->
  SuccessStatus (e1 r) ->
  firstSuccessType (responses op) = Some r
  /\ renderDecoderCode op = decoderBlock (operationId op) (responses op) r
  /\ occurs
       (template
          ["          ...(isDecoder(overrideTypes) ? { "; e1 r;
           ": overrideTypes } : overrideTypes)"])
       (renderDecoderCode op).
Proof.
  intros Hrs Hpre Hr.
  assert (Hfind : firstSuccessType (responses op) = Some r)
    by (rewrite Hrs; now apply firstSuccessType_first).
  rewrite (renderDecoderCode_found _ _ Hfind).
  repeat split; [assumption|].
  unfold decoderBlock.
  match goal with
  | |- occurs _ (template ?l) => exact (occurs_template 42 3 l)
  end.
Qed.

Lemma decoderBlock_not_empty (opId : string) (rs : list Response)
  (first : Response) : decoderBlock opId rs first <> EmptyString.
Proof. unfold decoderBlock. rewrite template_cons. discriminate. Qed.

Lemma renderDecoderCode_empty_iff (op : IOperationInfo) :
  renderDecoderCode op = EmptyString
  <-> firstSuccessType (responses op) = None.
Proof.
  unfold renderDecoderCode.
  destruct (firstSuccessType (responses op)) as [first|]; split; intros H;
    try reflexivity; try discriminate.
Qed.

Lemma firstSuccessType_skip (pre post : list Response) (r : Response) :
  ~ SuccessStatus (e1 r) ->
  firstSuccessType (pre ++ r :: post) = firstSuccessType (pre ++ post).
Proof.
  intros Hr. apply isSuccessStatus_false in Hr. unfold firstSuccessType.
  induction pre as [|x pre IH]; simpl.
  - now rewrite Hr.
  - now rewrite IH.
Qed.

(** C3, as amended.  A response entry whose status code is not exactly
    three characters long, or does not start with [2], is never selected by
    the success lookup of [renderDecoderCode]; it is silently left out of
    the decision whether there is a decodable success: the lookup and the
    emptiness of the decoder block are the same with and without it. *)
Theorem non_success_status_never_selected (r : Response) :
  String.length (e1 r) <> 3 \/ get 0 (e1 r) <> Some "2"%char ->
  (forall rs, firstSuccessType rs <> Some r)
  /\ (forall pre post,
        firstSuccessType (pre ++ r :: post) = firstSuccessType (pre ++ post))
  /\ (forall op op' pre post,
        responses op = pre ++ r :: post ->
        responses op' = pre ++ post ->
        (renderDecoderCode op = EmptyString
         <-> renderDecoderCode op' = EmptyString)).
Proof.
  intros H.
  assert (Hr : ~ SuccessStatus (e1 r)) by (intros [H1 H2]; tauto).
  split; [|split].
  - intros rs E. apply firstSuccessType_some in E. tauto.
  - intros pre post. now apply firstSuccessType_skip.
  - intros op op' pre post E E'.
    rewrite !renderDecoderCode_empty_iff, E, E'.
    now rewrite firstSuccessType_skip.
Qed.

(** C4. For a response whose payload type name is the literal [Error],
    [getDecoderForResponse] emits the call of the error-response decoder
    constructor at the status code; the emitted text depends neither on the
    variable holding the types nor on the headers, so it inspects no type
    at run time.  The test comes first: the undefined-or-structural
    expression is emitted for every other type name. *)
Theorem error_payload_uses_error_decoder (status : string)
  (hdrs : list string) (varName : string) :
  getDecoderForResponse (Tuple3 status "Error" hdrs) varName
  = template ["r.basicErrorResponseDecoder<"; status; ">("; status; ")"]
  /\ (forall hdrs' varName',
        getDecoderForResponse (Tuple3 status "Error" hdrs') varName'
        = getDecoderForResponse (Tuple3 status "Error" hdrs) varName)
  /\ (forall ty, ty <> "Error" ->
        getDecoderForResponse (Tuple3 status ty hdrs) varName
        = template
            [varName; "["; status; "].name === "; dq; "undefined"; dq; " ";
             nl; "        ? r.constantResponseDecoder<undefined, "; status;
             ", "; toUnionOfLiterals hdrs; ">("; status; ", undefined) "; nl;
             "        : r.ioResponseDecoder<"; status; ", (typeof "; varName;
             "["; status; "])["; dq; "_A"; dq; "], (typeof "; varName; "[";
             status; "])["; dq; "_O"; dq; "], "; toUnionOfLiterals hdrs;
             ">("; status; ", "; varName; "["; status; "])"]).
Proof.
  split; [reflexivity | split].
  - reflexivity.
  - intros ty Hty. unfold getDecoderForResponse.
    apply String.eqb_neq in Hty. cbn [e1 e2 e3]. now rewrite Hty.
Qed.

Lemma defaultResponseEntry_spec (r : Response) :
  defaultResponseEntry r
  = (e1 r ++ ": "
     ++ (if string_dec (e2 r) "undefined" then "t.undefined" else e2 r)
    )%string.
Proof.
  unfold defaultResponseEntry. cbn [template fold_right].
  rewrite append_nil_right.
  destruct (string_dec (e2 r) "undefined") as [E|E].
  - now rewrite (proj2 (String.eqb_eq _ _) E).
  - now rewrite (proj2 (String.eqb_neq _ _) E).
Qed.

(** C5. For an operation with a qualifying success response, the text
    returned by [renderDecoderCode] starts with the default-responses map,
    which has exactly one entry per response, in input order: the status
    code, then the declared payload type name, the literal [undefined]
    being rewritten to [t.undefined]. *)
Theorem default_responses_map (op : IOperationInfo) :
  hasSuccess op ->
  exists rest,
    renderDecoderCode op
    = (template
         [nl; "      "; nl; "    export const ";
          uncapitalize (operationId op); "DefaultResponses = {"; nl;
          "      ";
          join ", "
            (List.map
               (fun r : Response =>
                  e1 r ++ ": "
                  ++ (if string_dec (e2 r) "undefined"
                      then "t.undefined" else e2 r))
               (responses op));
          nl; "    };"; nl; "  "]
       ++ rest)%string.
Proof.
  intros Hs. destruct (hasSuccess_first _ Hs) as [first Hfirst].
  rewrite (renderDecoderCode_found _ _ Hfirst).
  unfold decoderBlock, defaultResponses, defaultResponsesVarName.
  rewrite (List.map_ext _ _ defaultResponseEntry_spec).
  match goal with
  | |- context [template (_ :: _ :: _ :: ?l)] => exists (template l)
  end.
  cbn [template fold_right].
  rewrite !append_associative. reflexivity.
Qed.

Lemma responsesTGenericsWithDefaultTypes_flat (rs : list Response) :
  responsesTGenericsWithDefaultTypes rs
  = List.concat
      (Js.map
         (fun (r : Response) i =>
            [template ["A"; of_index i; " = "; e2 r];
             template ["C"; of_index i; " = "; e2 r]])
         rs).
Proof.
  unfold responsesTGenericsWithDefaultTypes, reduce, Js.map.
  now rewrite (reduce_from_append
                 (fun (r : Response) i =>
                    [template ["A"; of_index i; " = "; e2 r];
                     template ["C"; of_index i; " = "; e2 r]])).
Qed.

(** C6. For an operation with a qualifying success response and [n]
    responses, the responses generic type emitted by [renderDecoderCode]
    declares exactly [2 * n] type parameters, [A_i] then [C_i] for the
    [i]-th response in input order, each with the declared payload type of
    that response as its default, verbatim; it has one field per response,
    named by the status code, of type [t.Type<A_i, C_i>]. *)
Theorem responses_generic_type (op : IOperationInfo) :
  hasSuccess op ->
  let rs := responses op in
  let params := responsesTGenericsWithDefaultTypes rs in
  let fields := responsesTContent rs in
  List.length params = 2 * List.length rs
  /\ (forall i r, nth_error rs i = Some r ->
        nth_error params (2 * i)
        = Some (template ["A"; of_index i; " = "; e2 r])
        /\ nth_error params (2 * i + 1)
           = Some (template ["C"; of_index i; " = "; e2 r]))
  /\ List.length fields = List.length rs
  /\ (forall i r, nth_error rs i = Some r ->
        nth_error fields i
        = Some (template
                  [e1 r; ": t.Type<A"; of_index i; ", C"; of_index i; ">"]))
  /\ occurs
       (template
          [nl; "    export type ";
           withGenerics (template [capitalize (operationId op); "ResponsesT"])
             params;
           " = {"; nl; "      "; join ", " fields; nl; "    };"; nl; "  "])
       (renderDecoderCode op).
Proof.
  intros Hs rs params fields.
  assert (Hocc : occurs (responsesT (operationId op) rs)
                   (renderDecoderCode op)).
  { destruct (hasSuccess_first _ Hs) as [first Hfirst].
    rewrite (renderDecoderCode_found _ _ Hfirst).
    unfold decoderBlock.
    match goal with
    | |- occurs _ (template ?l) => exact (occurs_part 5 l _ eq_refl)
    end. }
  split; [|split; [|split; [|split; [|exact Hocc]]]]; clear Hocc;
    subst params fields.
  - rewrite responsesTGenericsWithDefaultTypes_flat.
    apply concat_pairs_length.
  - intros i r H. rewrite responsesTGenericsWithDefaultTypes_flat.
    apply (concat_pairs_nth
             (fun (r : Response) i =>
                template ["A"; of_index i; " = "; e2 r])
             (fun (r : Response) i =>
                template ["C"; of_index i; " = "; e2 r])
             rs 0 i r H).
  - apply map_from_length.
  - intros i r H. unfold responsesTContent, Js.map.
    now rewrite (map_from_nth _ _ 0 _ _ H).
Qed.

Lemma decoderName_not_empty (s : string) : decoderName s <> EmptyString.
Proof. discriminate. Qed.

Lemma composeStep_chain (l : list Response) (i : nat) (acc : string) :
  acc <> EmptyString ->
  reduce_from composeStep i l acc
  = fold_left
      (fun a (x : Response) =>
         template
           ["r.composeResponseDecoders("; a; ", "; decoderName (e1 x); ")"])
      l acc.
Proof.
  revert i acc; induction l as [|x l IH]; intros i acc Hacc; simpl.
  - reflexivity.
  - unfold composeStep at 2.
    rewrite (proj2 (String.eqb_neq _ _) Hacc).
    apply IH. discriminate.
Qed.

Lemma composedDecoders_cons (r : Response) (rs : list Response) :
  composedDecoders (r :: rs)
  = fold_left
      (fun a (x : Response) =>
         template
           ["r.composeResponseDecoders("; a; ", "; decoderName (e1 x); ")"])
      rs (decoderName (e1 r)).
Proof.
  unfold composedDecoders, reduce. simpl reduce_from.
  unfold composeStep at 2. simpl String.eqb.
  apply composeStep_chain, decoderName_not_empty.
Qed.

(** C7. For a non-empty responses list, the composed decoder chain is the
    left-to-right fold of the per-status decoder bindings in input order,
    seeded with the decoder of the first response: each further response
    contributes one composition call whose second argument is its decoder
    and whose first argument is the chain of the responses before it.  The
    chain is what the emitted decoder function returns. *)
Theorem composed_chain_follows_input_order (r : Response)
  (rs : list Response) :
  composedDecoders (r :: rs)
  = fold_left
      (fun a (x : Response) =>
         template
           ["r.composeResponseDecoders("; a; ", "; decoderName (e1 x); ")"])
      rs (decoderName (e1 r))
  /\ (forall x,
        composedDecoders ((r :: rs) ++ [x])
        = template
            ["r.composeResponseDecoders("; composedDecoders (r :: rs); ", ";
             decoderName (e1 x); ")"])
  /\ (forall op first,
        responses op = r :: rs ->
        firstSuccessType (responses op) = Some first ->
        occurs
          (template
             ["        return "; composedDecoders (r :: rs); nl; "      }"])
          (renderDecoderCode op)).
Proof.
  split; [apply composedDecoders_cons | split].
  - intros x. change ((r :: rs) ++ [x])%list with (r :: (rs ++ [x]))%list.
    rewrite !composedDecoders_cons, fold_left_app. reflexivity.
  - intros op first Hrs Hfirst.
    rewrite (renderDecoderCode_found _ _ Hfirst), Hrs.
    unfold decoderBlock.
    match goal with
    | |- occurs _ (template ?l) => exact (occurs_template 52 4 l)
    end.
Qed.

Lemma escapeIdentifier_optional (pre post : string) :
  noQuestion pre ->
  escapeIdentifier (pre ++ "?" ++ post) = template [dq; pre; post; dq; "?"].
Proof.
  intros H. unfold escapeIdentifier.
  rewrite includes_question_true, replace_question_first by assumption.
  cbn [template fold_right]. now rewrite !append_associative.
Qed.

Lemma escapeIdentifier_required (id : string) :
  noQuestion id -> escapeIdentifier id = template [dq; id; dq].
Proof.
  intros H. unfold escapeIdentifier.
  now rewrite includes_question_false.
Qed.

Lemma paramsCode_occurs (op : IOperationInfo) (g : bool) :
  occurs (template ["<{"; paramsCode (parameters op); "}, "])
    (renderOperation op g).
Proof.
  apply occurs_trans with (b := requestTypeDefinition op).
  - unfold requestTypeDefinition.
    match goal with
    | |- occurs _ (template ?l) => exact (occurs_template 4 3 l)
    end.
  - unfold renderOperation.
    match goal with
    | |- occurs _ (template ?l) => exact (occurs_part 12 l _ eq_refl)
    end.
Qed.

(** C8, as amended.  The parameter object of the request type has one
    property per parameter, in order.  A parameter whose name contains [?]
    is rendered as an optional property: its key is the name with its
    first question mark removed, between double quotes, followed by the
    optional marker; when the name has a single question mark, no question
    mark is left in the key.  A name without [?] is rendered as a required
    double-quoted key. *)
Theorem optional_parameter_key (op : IOperationInfo) (g : bool) :
  occurs
    (template
       ["<{"; join "," (List.map paramCode (parameters op)); "}, "])
    (renderOperation op g)
  /\ (forall p,
        In "?"%char (list_ascii_of_string (name p)) ->
        exists pre post,
          name p = (pre ++ "?" ++ post)%string
          /\ noQuestion pre
          /\ paramCode p
             = template
                 ["readonly "; dq; pre; post; dq; "?"; ": "; type p]
          /\ (noQuestion post -> noQuestion (pre ++ post)))
  /\ (forall p,
        noQuestion (name p) ->
        paramCode p = template ["readonly "; dq; name p; dq; ": "; type p]).
Proof.
  split; [exact (paramsCode_occurs op g) | split].
  - intros p Hin.
    destruct (question_split _ Hin) as [pre [post [E Hpre]]].
    exists pre, post. split; [assumption | split; [assumption | split]].
    + unfold paramCode.
      rewrite E, escapeIdentifier_optional by assumption.
      cbn [template fold_right]. now rewrite !append_associative.
    + now apply noQuestion_app.
  - intros p H. unfold paramCode.
    rewrite escapeIdentifier_required by assumption.
    cbn [template fold_right]. now rewrite !append_associative.
Qed.

Lemma paramsCode_names_types (ps : list IParameterInfo) :
  paramsCode ps
  = join ","
      (List.map
         (fun nt : string * string =>
            template
              ["readonly "; escapeIdentifier (fst nt); ": "; snd nt])
         (List.map (fun p => (name p, type p)) ps)).
Proof. unfold paramsCode. now rewrite List.map_map. Qed.

(** X11. The text returned by [renderOperation] and by
    [renderDecoderCode] does not depend on the fields the renderer never
    reads (the path, the imported types, the consumed and produced media
    types, the location and the header name of a parameter): two
    operations that agree on the method, the identifier, the request
    headers, the responses and the names and types of the parameters are
    rendered to the same text. *)
Theorem rendering_depends_only_on_input (a b : IOperationInfo)
  (g g' : bool) :
  sameRendered a b ->
  g = g' ->
  renderOperation a g = renderOperation b g'
  /\ renderDecoderCode a = renderDecoderCode b.
Proof.
  intros [Hm [Hid [Hh [Hr Hp]]]] <-.
  assert (Hd : renderDecoderCode a = renderDecoderCode b)
    by (unfold renderDecoderCode; now rewrite Hr, Hid).
  split; [|exact Hd].
  unfold renderOperation, requestTypeDefinition.
  now rewrite !paramsCode_names_types, Hp, Hm, Hid, Hh, Hr, Hd.
Qed.

Lemma decoderDefinitions_split (l1 l2 l3 : list Response)
  (r1 r2 : Response) :
  decoderDefinitions (l1 ++ r1 :: l2 ++ r2 :: l3)
  = template
      [template (map_from decoderDefinition 0 l1);
       decoderDefinition r1 (List.length l1);
       template (map_from decoderDefinition (S (List.length l1)) l2);
       decoderDefinition r2 (S (List.length l1) + List.length l2);
       template
         (map_from decoderDefinition
            (S (S (List.length l1) + List.length l2)) l3)].
Proof.
  unfold decoderDefinitions, Js.map.
  rewrite join_nosep, map_from_app. cbn [map_from].
  rewrite map_from_app. cbn [map_from].
  rewrite template_app, template_cons, template_app, template_cons.
  cbn [template fold_right]. rewrite append_nil_right.
  reflexivity.
Qed.

(** C10. The name of a per-status decoder binding is [d] followed by the
    status code and nothing else.  When two entries of the responses list
    have the same status code (and there is a qualifying success entry),
    [renderDecoderCode] returns a non-empty block that holds the binding of
    each of the two entries, each at its own index: both declare the
    constant [d<statusCode>] of that one status code, so the name is
    declared twice; the input is neither rejected nor deduplicated. *)
Theorem duplicate_status_duplicate_bindings (op : IOperationInfo)
  (l1 l2 l3 : list Response) (r1 r2 : Response) :
  hasSuccess op ->
  responses op = l1 ++ r1 :: l2 ++ r2 :: l3 ->
  e1 r1 = e1 r2 ->
  (forall statusCode,
     decoderName statusCode = String "d"%char statusCode)
  /\ renderDecoderCode op <> EmptyString
  /\ exists before between after,
       renderDecoderCode op
       = template
           [before;
            nl; "    const d"; e1 r1; " = (";
            getDecoderForResponse r1 "type";
            ") as r.ResponseDecoder<r.IResponseType<"; e1 r1; ", A";
            of_index (List.length l1); ", "; toUnionOfLiterals (e3 r1);
            ">>;"; nl; "  ";
            between;
            nl; "    const d"; e1 r1; " = (";
            getDecoderForResponse r2 "type";
            ") as r.ResponseDecoder<r.IResponseType<"; e1 r2; ", A";
            of_index (S (List.length l1) + List.length l2); ", ";
            toUnionOfLiterals (e3 r2); ">>;"; nl; "  ";
            after].
Proof.
  intros Hs Hrs He.
  destruct (hasSuccess_first _ Hs) as [first Hfirst].
  split; [intros statusCode; unfold decoderName; cbn [template fold_right];
          now rewrite append_nil_right | split].
  - rewrite renderDecoderCode_empty_iff, Hfirst. discriminate.
  - assert (Hocc : occurs (decoderDefinitions (responses op))
                     (renderDecoderCode op)).
    { rewrite (renderDecoderCode_found _ _ Hfirst). unfold decoderBlock.
      match goal with
      | |- occurs _ (template ?l) => exact (occurs_part 50 l _ eq_refl)
      end. }
    destruct Hocc as [p [q ->]].
    rewrite Hrs, decoderDefinitions_split.
    exists (p ++ template (map_from decoderDefinition 0 l1))%string,
           (template
              (map_from decoderDefinition (S (List.length l1)) l2)),
           (template
              (map_from decoderDefinition
                 (S (S (List.length l1) + List.length l2)) l3) ++ q)%string.
    unfold decoderDefinition at 2 4. unfold decoderName.
    rewrite <- He at 1.
    destruct r1 as [s1 t1 h1], r2 as [s2 t2 h2].
    cbn [e1 e2 e3 template fold_right].
    rewrite !append_associative, !append_nil_right. reflexivity.
Qed.

End RenderFacts.

(** ** Further facts about the renderer *)

Section MoreStringFacts.

Lemma append_cancel_left (a b c : string) :
  (a ++ b)%string = (a ++ c)%string -> b = c.
Proof. induction a as [|x a IH]; simpl; intros H; [assumption|]. injection H. exact IH. Qed.

Lemma occurs_refl (a : string) : occurs a a.
Proof. exists EmptyString, EmptyString. simpl. now rewrite append_nil_right. Qed.

Lemma occurs_left (x a b : string) : occurs x a -> occurs x (a ++ b).
Proof.
  intros [p [q ->]]. exists p, (q ++ b)%string.
  now rewrite !append_associative.
Qed.

Lemma occurs_right (x a b : string) : occurs x b -> occurs x (a ++ b).
Proof.
  intros [p [q ->]]. exists (a ++ p)%string, q.
  now rewrite !append_associative.
Qed.

Lemma of_index_injective (i j : nat) : of_index i = of_index j -> i = j.
Proof.
  unfold of_index. intros H.
  apply DecimalNat.Unsigned.to_uint_inj.
  assert (E : Some (Nat.to_uint i) = Some (Nat.to_uint j))
    by (rewrite <- !NilEmpty.usu; now rewrite H).
  now injection E.
Qed.

Lemma map_from_constant {A B : Type} (f : A -> B) (l : list A) i :
  map_from (fun x _ => f x) i l = List.map f l.
Proof. revert i; induction l as [|x l IH]; intros i; simpl; [|rewrite IH]; reflexivity. Qed.

Lemma concat_pairs_members {A B : Type} (a c : nat -> B) (l : list A) i x :
  In x (List.concat (map_from (fun _ j => [a j; c j]) i l)) ->
  exists k, i <= k /\ (x = a k \/ x = c k).
Proof.
  revert i; induction l as [|y l IH]; intros i; simpl; [intros []|].
  intros [H|[H|H]].
  - exists i. split; [lia | now left].
  - exists i. split; [lia | now right].
  - destruct (IH (S i) H) as [k [Hk Hx]]. exists k. split; [lia | exact Hx].
Qed.

Lemma concat_pairs_NoDup {A B : Type} (a c : nat -> B) (l : list A) i :
  (forall j k, a j = a k -> j = k) ->
  (forall j k, c j = c k -> j = k) ->
  (forall j k, a j <> c k) ->
  NoDup (List.concat (map_from (fun _ j => [a j; c j]) i l)).
Proof.
  intros Ha Hc Hac. revert i; induction l as [|y l IH]; intros i; simpl.
  - constructor.
  - constructor; [|constructor; [|apply IH]].
    + intros [H|H]; [symmetry in H; now apply Hac in H|].
      destruct (concat_pairs_members _ _ _ _ _ H) as [k [Hk [E|E]]].
      * apply Ha in E. lia.
      * now apply Hac in E.
    + intros H.
      destruct (concat_pairs_members _ _ _ _ _ H) as [k [Hk [E|E]]].
      * symmetry in E. now apply Hac in E.
      * apply Hc in E. lia.
Qed.

Lemma JsSet_add_In (s : list string) (x y : string) :
  In y (JsSet.add s x) <-> In y s \/ y = x.
Proof.
  unfold JsSet.add. destruct (existsb (String.eqb x) s) eqn:E.
  - split; [now left|]. intros [H | ->]; [assumption|].
    apply existsb_exists in E. destruct E as [z [Hz Ez]].
    apply String.eqb_eq in Ez. now subst z.
  - rewrite in_app_iff. simpl. intuition.
Qed.

Lemma JsSet_add_NoDup (s : list string) (x : string) :
  NoDup s -> NoDup (JsSet.add s x).
Proof.
  intros H. unfold JsSet.add. destruct (existsb (String.eqb x) s) eqn:E.
  - assumption.
  - apply NoDup_app.
    + assumption.
    + constructor; [intros Hin; destruct Hin | constructor].
    + intros y Hy Hx. destruct Hx as [Hx|Hx]; [subst y | destruct Hx].
      assert (Ex : existsb (String.eqb x) s = true)
        by (apply existsb_exists; exists x; split;
            [assumption | apply String.eqb_refl]).
      congruence.
Qed.

Lemma JsSet_fold_In (values s : list string) (y : string) :
  In y (fold_left JsSet.add values s) <-> In y s \/ In y values.
Proof.
  revert s; induction values as [|x values IH]; intros s; simpl.
  - intuition.
  - rewrite IH, JsSet_add_In. intuition.
Qed.

Lemma JsSet_fold_NoDup (values s : list string) :
  NoDup s -> NoDup (fold_left JsSet.add values s).
Proof.
  revert s; induction values as [|x values IH]; intros s H; simpl.
  - assumption.
  - now apply IH, JsSet_add_NoDup.
Qed.

End MoreStringFacts.

Section MoreRenderFacts.

Context {U : Utils}.

Lemma hasSuccess_iff_first (op : IOperationInfo) :
  hasSuccess op <-> firstSuccessType (responses op) <> None.
Proof.
  split.
  - intros H. destruct (hasSuccess_first _ H) as [first ->]. discriminate.
  - intros H. destruct (firstSuccessType (responses op)) as [first|] eqn:E;
      [|congruence].
    exists first. now apply firstSuccessType_some.
Qed.

Lemma decoder_block_empty_iff (op : IOperationInfo) :
  renderDecoderCode op = EmptyString <-> ~ hasSuccess op.
Proof.
  rewrite renderDecoderCode_empty_iff, hasSuccess_iff_first.
  destruct (firstSuccessType (responses op)); split; intros H;
    try reflexivity; try discriminate; try (intros H'; congruence).
  exfalso. apply H. discriminate.
Qed.

Lemma renderOperation_flag (op : IOperationInfo) :
  renderOperation op true
  = (renderOperation op false ++ renderDecoderCode op)%string.
Proof.
  unfold renderOperation.
  match goal with
  | |- template ?l = (template ?l' ++ _)%string =>
      change l with (firstn 13 l ++ [renderDecoderCode op])%list;
      change l' with (firstn 13 l ++ [EmptyString])%list
  end.
  rewrite !template_app. cbn [template fold_right]. cbn [append].
  now rewrite !append_associative, !append_nil_right.
Qed.

(** X1. With the decoders requested, [renderOperation] returns the text it
    returns without them followed by the decoder block.  The block is
    empty exactly when the operation has no qualifying success response,
    so the flag changes the text of exactly the operations that have
    one. *)
Theorem decoder_flag_appends_block (op : IOperationInfo) :
  renderOperation op true
  = (renderOperation op false ++ renderDecoderCode op)%string
  /\ (renderDecoderCode op = EmptyString <-> ~ hasSuccess op)
  /\ (renderOperation op true = renderOperation op false
      <-> ~ hasSuccess op).
Proof.
  split; [apply renderOperation_flag | split].
  - apply decoder_block_empty_iff.
  - rewrite <- decoder_block_empty_iff, renderOperation_flag. split.
    + intros H. apply (append_cancel_left (renderOperation op false)).
      now rewrite append_nil_right.
    + intros ->. now rewrite append_nil_right.
Qed.

Lemma reduce_from_app {A B : Type} (f : B -> A -> nat -> B)
  (l1 l2 : list A) i acc :
  reduce_from f i (l1 ++ l2) acc
  = reduce_from f (i + List.length l1) l2 (reduce_from f i l1 acc).
Proof.
  revert i acc; induction l1 as [|x l1 IH]; intros i acc; simpl.
  - now rewrite Nat.add_0_r.
  - now rewrite IH, Nat.add_succ_r.
Qed.

Lemma successContent_skip (first : Response) (l : list Response) i acc :
  (forall x, In x l -> e1 x <> e1 first) ->
  reduce_from
    (fun (p : string) (r : Response) i =>
       if negb (String.eqb (e1 r) (e1 first))
       then p
       else template ["t.Type<A"; of_index i; ", C"; of_index i; ">"])
    i l acc
  = acc.
Proof.
  revert i acc; induction l as [|x l IH]; intros i acc H; simpl.
  - reflexivity.
  - rewrite (proj2 (String.eqb_neq _ _) (H x (or_introl eq_refl))).
    apply IH. intros y Hy. apply H. now right.
Qed.

(** X2. The type that stands for a bare decoder in the signature of the
    emitted function, and in its [isDecoder] test, is built from the
    generic parameters of the last response whose status code is that of
    the success response: when the status code occurs once these are the
    parameters of the success response itself, and when it occurs again
    later they are those of the later entry. *)
Theorem success_type_of_last_same_status (op : IOperationInfo)
  (first r : Response) (pre post : list Response) :
  firstSuccessType (responses op) = Some first ->
  responses op = pre ++ r :: post ->
  e1 r = e1 first ->
  (forall x, In x post -> e1 x <> e1 first) ->
  responsesSuccessTContent first (responses op)
  = template
      ["t.Type<A"; of_index (List.length pre); ", C";
       of_index (List.length pre); ">"]
  /\ occurs
       (template
          ["> | t.Type<A"; of_index (List.length pre); ", C";
           of_index (List.length pre); ">"; " | undefined = {}): "])
       (renderDecoderCode op)
  /\ occurs
       (template
          ["        const isDecoder = (d: any): d is t.Type<A";
           of_index (List.length pre); ", C"; of_index (List.length pre);
           ">"; " =>"])
       (renderDecoderCode op).
Proof.
  intros Hfirst Hrs He Hpost.
  assert (E : responsesSuccessTContent first (responses op)
              = template
                  ["t.Type<A"; of_index (List.length pre); ", C";
                   of_index (List.length pre); ">"]).
  { rewrite Hrs. unfold responsesSuccessTContent, reduce.
    rewrite reduce_from_app. cbn [reduce_from].
    rewrite He, String.eqb_refl. cbn [negb].
    now rewrite successContent_skip. }
  split; [exact E | split].
  - rewrite (renderDecoderCode_found _ _ Hfirst). unfold decoderBlock.
    rewrite E.
    match goal with
    | |- occurs ?x (template ?l) =>
        apply occurs_trans with (b := template (firstn 3 (skipn 11 l)));
        [|exact (occurs_template 11 3 l)]
    end.
    cbn [firstn skipn template fold_right].
    rewrite !append_associative, !append_nil_right. apply occurs_refl.
  - rewrite (renderDecoderCode_found _ _ Hfirst). unfold decoderBlock.
    rewrite E.
    match goal with
    | |- occurs ?x (template ?l) =>
        apply occurs_trans with (b := template (firstn 3 (skipn 17 l)));
        [|exact (occurs_template 17 3 l)]
    end.
    cbn [firstn skipn template fold_right].
    rewrite !append_associative, !append_nil_right. apply occurs_refl.
Qed.

Lemma responsesTGenerics_flat (rs : list Response) :
  responsesTGenerics rs
  = List.concat
      (Js.map
         (fun (_ : Response) i =>
            [template ["A"; of_index i]; template ["C"; of_index i]])
         rs).
Proof.
  unfold responsesTGenerics, reduce, Js.map.
  now rewrite (reduce_from_append
                 (fun (_ : Response) i =>
                    [template ["A"; of_index i];
                     template ["C"; of_index i]])).
Qed.

(** X3. The generic parameters of the responses type are pairwise
    distinct names, two per response: whatever the status codes are, even
    repeated ones, no parameter is declared twice. *)
Theorem generic_parameters_distinct (rs : list Response) :
  NoDup (responsesTGenerics rs)
  /\ List.length (responsesTGenerics rs) = 2 * List.length rs
  /\ (forall i r, nth_error rs i = Some r ->
        nth_error (responsesTGenerics rs) (2 * i)
        = Some (template ["A"; of_index i])
        /\ nth_error (responsesTGenerics rs) (2 * i + 1)
           = Some (template ["C"; of_index i])).
Proof.
  rewrite responsesTGenerics_flat. unfold Js.map. split; [|split].
  - apply (concat_pairs_NoDup
             (fun i => template ["A"; of_index i])
             (fun i => template ["C"; of_index i])).
    + intros j k H. cbn [template fold_right append] in H.
      injection H as H. rewrite !append_nil_right in H.
      now apply of_index_injective.
    + intros j k H. cbn [template fold_right append] in H.
      injection H as H. rewrite !append_nil_right in H.
      now apply of_index_injective.
    + intros j k H. discriminate H.
  - apply (concat_pairs_length
             (fun (_ : Response) i => template ["A"; of_index i])
             (fun (_ : Response) i => template ["C"; of_index i])).
  - intros i r H.
    apply (concat_pairs_nth
             (fun (_ : Response) i => template ["A"; of_index i])
             (fun (_ : Response) i => template ["C"; of_index i])
             rs 0 i r H).
Qed.

Lemma defaults_from_generics (l : list Response) i :
  List.concat
    (map_from
       (fun (r : Response) j =>
          [template ["A"; of_index j; " = "; e2 r];
           template ["C"; of_index j; " = "; e2 r]])
       i l)
  = List.map
      (fun gr : string * Response =>
         template [fst gr; " = "; e2 (snd gr)])
      (combine
         (List.concat
            (map_from
               (fun (_ : Response) j =>
                  [template ["A"; of_index j]; template ["C"; of_index j]])
               i l))
         (flat_map (fun r => [r; r]) l)).
Proof.
  revert i; induction l as [|x l IH]; intros i; [reflexivity|].
  cbn [map_from List.concat flat_map app combine List.map fst snd].
  rewrite IH. f_equal; [|f_equal];
    cbn [template fold_right];
    now rewrite !append_associative, !append_nil_right.
Qed.

(** X4. The parameters with defaults, used where the responses type and
    the decoder function are declared, are the parameters used where the
    responses type is applied, in the same order, each followed by [ = ]
    and the declared payload type of its response. *)
Theorem defaults_extend_generics (rs : list Response) :
  responsesTGenericsWithDefaultTypes rs
  = List.map
      (fun gr : string * Response =>
         template [fst gr; " = "; e2 (snd gr)])
      (combine (responsesTGenerics rs) (flat_map (fun r => [r; r]) rs)).
Proof.
  rewrite responsesTGenericsWithDefaultTypes_flat, responsesTGenerics_flat.
  apply defaults_from_generics.
Qed.

Lemma tuple3_eta (r : Response) : Tuple3 (e1 r) (e2 r) (e3 r) = r.
Proof. now destruct r. Qed.

Lemma decoderDefinition_occurs (rs : list Response) i (r : Response) :
  nth_error rs i = Some r ->
  occurs (decoderDefinition r i) (decoderDefinitions rs).
Proof.
  intros H. unfold decoderDefinitions. rewrite join_nosep.
  apply (occurs_part i). unfold Js.map.
  now rewrite (map_from_nth _ _ 0 _ _ H).
Qed.

Lemma decoderDefinitions_occurs (op : IOperationInfo) (first : Response) :
  firstSuccessType (responses op) = Some first ->
  occurs (decoderDefinitions (responses op)) (renderDecoderCode op).
Proof.
  intros Hfirst. rewrite (renderDecoderCode_found _ _ Hfirst).
  unfold decoderBlock.
  match goal with
  | |- occurs _ (template ?l) => exact (occurs_part 50 l _ eq_refl)
  end.
Qed.

(** X5. In the decoder block every response has its own [const] binding:
    the binding of the [i]-th response holds the decoder expression of
    that response and is cast to a decoder of
    [r.IResponseType<status, A_i, headers>], which is the [i]-th member of
    the union in the return type of the emitted function. *)
Theorem binding_matches_return_type (op : IOperationInfo) (i : nat)
  (r : Response) :
  hasSuccess op ->
  nth_error (responses op) i = Some r ->
  let member :=
    template
      ["r.IResponseType<"; e1 r; ", A"; of_index i; ", ";
       toUnionOfLiterals (e3 r); ">"] in
  occurs
    (template
       [nl; "    const "; decoderName (e1 r); " = (";
        getDecoderForResponse r typeVarName; ") as r.ResponseDecoder<";
        member; ">;"])
    (renderDecoderCode op)
  /\ exists members,
       List.length members = List.length (responses op)
       /\ nth_error members i = Some member
       /\ occurs
            (template
               ["): r.ResponseDecoder<"; nl; "    "; join "|" members; nl;
                "  > {"])
            (renderDecoderCode op).
Proof.
  intros Hs Hi member.
  destruct (hasSuccess_first _ Hs) as [first Hfirst].
  split.
  - apply occurs_trans with (b := decoderDefinitions (responses op));
      [|now apply (decoderDefinitions_occurs op first)].
    apply occurs_trans with (b := decoderDefinition r i);
      [|now apply decoderDefinition_occurs].
    unfold decoderDefinition. rewrite tuple3_eta. subst member.
    exists EmptyString, (template [nl; "  "]).
    cbn [template fold_right].
    rewrite !append_associative, !append_nil_right. reflexivity.
  - exists (Js.map
              (fun (r : Response) i =>
                 template
                   ["r.IResponseType<"; e1 r; ", A"; of_index i; ", ";
                    toUnionOfLiterals (e3 r); ">"])
              (responses op)).
    split; [apply map_from_length | split].
    + unfold Js.map. now rewrite (map_from_nth _ _ 0 _ _ Hi).
    + rewrite (renderDecoderCode_found _ _ Hfirst). unfold decoderBlock.
      match goal with
      | |- occurs ?x (template ?l) =>
          apply occurs_trans with (b := template (firstn 3 (skipn 13 l)));
          [|exact (occurs_template 13 3 l)]
      end.
      cbn [firstn skipn]. unfold returnType.
      exists " | undefined = {}", EmptyString.
      cbn [template fold_right].
      rewrite !append_associative, !append_nil_right. reflexivity.
Qed.

Lemma repeat_commutes (s : string) (n : nat) :
  (template (repeat s n) ++ s)%string = (s ++ template (repeat s n))%string.
Proof.
  induction n as [|n IH]; cbn [repeat template fold_right].
  - now rewrite append_nil_right.
  - change (fold_right append EmptyString (repeat s n))
      with (template (repeat s n)).
    now rewrite append_associative, IH.
Qed.

Lemma chain_closed_form (l : list Response) (acc : string) :
  fold_left
    (fun a (x : Response) =>
       template
         ["r.composeResponseDecoders("; a; ", "; decoderName (e1 x); ")"])
    l acc
  = (template (repeat "r.composeResponseDecoders(" (List.length l))
     ++ acc
     ++ template
          (List.map (fun x : Response => template [", d"; e1 x; ")"]) l)
    )%string.
Proof.
  revert acc; induction l as [|x l IH]; intros acc.
  - cbn. now rewrite append_nil_right.
  - cbn [fold_left]. rewrite IH.
    cbn [List.length repeat List.map].
    rewrite !template_cons.
    rewrite <- (repeat_commutes "r.composeResponseDecoders(").
    unfold decoderName. cbn [template fold_right].
    rewrite !append_associative, !append_nil_right. reflexivity.
Qed.

(** X6. The composed decoder is the empty text exactly for the empty
    responses list.  For a first response followed by [m] others it is
    [m] openings of a composition call, then [d<status>] of the first
    response, then, for each further response in input order, a comma,
    [d<status>] of that response and the closing of one call: every
    response contributes its binding exactly once, as an argument. *)
Theorem composed_chain_closed_form (rs : list Response) :
  (composedDecoders rs = EmptyString <-> rs = [])
  /\ (forall r rest,
        rs = r :: rest ->
        composedDecoders rs
        = template
            [template
               (repeat "r.composeResponseDecoders(" (List.length rest));
             "d"; e1 r;
             template
               (List.map
                  (fun x : Response => template [", d"; e1 x; ")"]) rest)]).
Proof.
  split.
  - destruct rs as [|x rs]; [split; reflexivity|].
    rewrite composedDecoders_cons, chain_closed_form.
    split; [|discriminate]. intros H.
    destruct (template
                (repeat "r.composeResponseDecoders(" (List.length rs)));
      discriminate H.
  - intros r rest ->.
    rewrite composedDecoders_cons, chain_closed_form.
    unfold decoderName. cbn [template fold_right].
    now rewrite !append_associative, !append_nil_right.
Qed.

(** X7. For an operation without parameters, request headers and
    responses, [renderOperation] returns the heading and a request type
    over the empty object, [never] for the headers and an empty union of
    responses, whether the decoders are requested or not. *)
Theorem empty_operation_request_type (op : IOperationInfo) (g : bool) :
  parameters op = [] ->
  headers op = [] ->
  responses op = [] ->
  renderOperation op g
  = template
      [nl;
       "    /****************************************************************";
       nl; "     * "; operationId op; nl; "     */"; nl; nl;
       "    // Request type definition"; nl; "    export type ";
       capitalize (operationId op); "T = r.I";
       capitalize (method_text (method op));
       "ApiRequestType<{}, never, never, >;"; nl; "  "].
Proof.
  intros Hp Hh Hr.
  unfold renderOperation, requestTypeDefinition, renderDecoderCode,
    requestType.
  rewrite Hp, Hh, Hr.
  destruct g; cbn [firstSuccessType find paramsCode headersCode
                     responsesType List.map join List.length Nat.ltb
                     Nat.leb template fold_right];
    rewrite !append_associative, ?append_nil_right; reflexivity.
Qed.

(** X8. Only the presence of the question mark counts, not its place: a
    parameter whose name has its single question mark inside the name is
    rendered as the same optional property as the parameter of the same
    type whose name has it at the end. *)
Theorem question_mark_place_is_lost (p q : IParameterInfo)
  (pre post : string) :
  noQuestion pre ->
  noQuestion post ->
  name p = (pre ++ "?" ++ post)%string ->
  name q = (pre ++ post ++ "?")%string ->
  type p = type q ->
  paramCode p = paramCode q.
Proof.
  intros Hpre Hpost Hp Hq Ht. unfold paramCode. rewrite Hp, Hq, Ht.
  rewrite (escapeIdentifier_optional pre post Hpre).
  replace (pre ++ post ++ "?")%string
    with ((pre ++ post) ++ "?" ++ EmptyString)%string
    by now rewrite append_associative.
  rewrite (escapeIdentifier_optional (pre ++ post) EmptyString
             (noQuestion_app _ _ Hpre Hpost)).
  cbn [template fold_right].
  now rewrite !append_associative, ?append_nil_right.
Qed.

End MoreRenderFacts.

Section RenderAllFacts.

Context {U : Utils} {P : Prettier}.

Lemma definedOperations_app (l1 l2 : list (option IOperationInfo)) :
  definedOperations (l1 ++ l2)
  = definedOperations l1 ++ definedOperations l2.
Proof.
  induction l1 as [|[op|] l1 IH]; simpl; [reflexivity | now rewrite IH
                                          | exact IH].
Qed.

Lemma definedOperations_Some (l : list IOperationInfo) :
  definedOperations (List.map Some l) = l.
Proof. induction l as [|op l IH]; simpl; [reflexivity | now rewrite IH]. Qed.

Lemma definedOperations_In (l : list (option IOperationInfo))
  (op : IOperationInfo) :
  In op (definedOperations l) <-> In (Some op) l.
Proof.
  induction l as [|[x|] l IH]; simpl.
  - tauto.
  - rewrite IH. split; intros [H|H]; auto; left; congruence.
  - rewrite IH. split; [now right | intros [H|H]; [discriminate | exact H]].
Qed.

Lemma renderAllOperations_defined (ops ops' : list (option IOperationInfo))
  (g : bool) :
  definedOperations ops = definedOperations ops' ->
  renderAllOperations ops g = renderAllOperations ops' g.
Proof.
  intros H.
  unfold renderAllOperations, operationsImports, operationTypesCode,
    operationsTypes.
  now rewrite H.
Qed.

(** X9. [renderAllOperations] ignores the undefined entries of its list:
    removing one changes nothing, and the result is that of the list of
    the defined operations alone, in their order. *)
Theorem undefined_operations_skipped (ops : list (option IOperationInfo))
  (g : bool) :
  renderAllOperations ops g
  = renderAllOperations (List.map Some (definedOperations ops)) g
  /\ (forall l1 l2,
        ops = l1 ++ None :: l2 ->
        renderAllOperations ops g = renderAllOperations (l1 ++ l2) g).
Proof.
  split.
  - apply renderAllOperations_defined.
    now rewrite definedOperations_Some.
  - intros l1 l2 ->. apply renderAllOperations_defined.
    now rewrite !definedOperations_app.
Qed.

Lemma operationsImports_flat (ops : list (option IOperationInfo))
  (g : bool) :
  operationsImports ops g
  = JsSet.from
      (List.concat (List.map importedTypes (definedOperations ops))).
Proof.
  unfold operationsImports, operationsTypes, reduce.
  rewrite (reduce_from_append
             (fun (t : T2.ITuple2 string (list string)) (_ : nat) =>
                T2.e2 t)).
  rewrite map_from_constant, List.map_map. reflexivity.
Qed.

Lemma JsSet_fold_fresh (values s : list string) :
  NoDup (s ++ values) -> fold_left JsSet.add values s = s ++ values.
Proof.
  revert s; induction values as [|x values IH]; intros s H; simpl.
  - now rewrite app_nil_r.
  - assert (Hx : existsb (String.eqb x) s = false).
    { destruct (existsb (String.eqb x) s) eqn:E; [|reflexivity].
      apply existsb_exists in E. destruct E as [y [Hy Ey]].
      apply String.eqb_eq in Ey. subst y.
      apply NoDup_remove_2 in H. exfalso. apply H.
      apply in_or_app. now left. }
    unfold JsSet.add at 2. rewrite Hx.
    rewrite IH; rewrite <- app_assoc; [reflexivity | exact H].
Qed.

(** X10. The import statements of the generated file are one per distinct
    type name imported by some defined operation: a name imported by
    several operations is imported once.  When no name is repeated, the
    statements come in the order of the operations and of their imported
    types.  They are followed by the code of the operations. *)
Theorem imports_once_each (ops : list (option IOperationInfo)) (g : bool) :
  let imports := operationsImports ops g in
  NoDup imports
  /\ (forall x,
        In x imports
        <-> exists op, In (Some op) ops /\ In x (importedTypes op))
  /\ (NoDup (List.concat (List.map importedTypes (definedOperations ops)))
      -> imports
         = List.concat (List.map importedTypes (definedOperations ops)))
  /\ exists code,
       renderAllOperations ops g = formatCode code
       /\ occurs
            (template
               [join (template [nl; nl]) (List.map importStatement imports);
                nl; "  "; nl; "        "; operationTypesCode ops g])
            code.
Proof.
  intros imports.
  assert (Hcode : exists code,
             renderAllOperations ops g = formatCode code
             /\ occurs
                  (template
                     [join (template [nl; nl])
                        (List.map importStatement imports);
                      nl; "  "; nl; "        "; operationTypesCode ops g])
                  code).
  { eexists. split; [reflexivity|].
    match goal with
    | |- occurs _ (template ?l) => exact (occurs_template 25 6 l)
    end. }
  split; [|split; [|split; [|exact Hcode]]]; clear Hcode; subst imports;
    rewrite operationsImports_flat; unfold JsSet.from.
  - apply JsSet_fold_NoDup. constructor.
  - intros x. rewrite JsSet_fold_In, in_concat. split.
    + intros [[]|[l [Hl Hx]]]. apply in_map_iff in Hl.
      destruct Hl as [op [<- Hop]]. exists op.
      now rewrite <- definedOperations_In.
    + intros [op [Hop Hx]]. right. exists (importedTypes op).
      split; [|exact Hx]. apply in_map.
      now rewrite definedOperations_In.
  - intros H. now rewrite (JsSet_fold_fresh _ [] H).
Qed.

End RenderAllFacts.

(** ** The theorems at concrete operations *)

Import Scenarios.

Lemma getThing_hasSuccess : hasSuccess getThing.
Proof.
  exists (response "200" "Thing" []).
  split; [left; reflexivity | split; reflexivity].
Defined.

Lemma twice_hasSuccess : hasSuccess twice.
Proof.
  exists (response "200" "Thing" []).
  split; [left; reflexivity | split; reflexivity].
Defined.

Lemma no_success_no_decoder_block_witness :
  renderDecoderCode (U := SpecUtils.utils) failing = EmptyString.
Proof.
  apply (no_success_no_decoder_block (U := SpecUtils.utils) failing).
  intros r [<-|[]] [_ H]. discriminate H.
Defined.

Lemma first_success_in_input_order_witness :
  firstSuccessType (responses unsorted) = Some (response "204" "undefined" [])
  /\ occurs
       "          ...(isDecoder(overrideTypes) ? { 204: overrideTypes } : overrideTypes)"
       (renderDecoderCode (U := SpecUtils.utils) unsorted).
Proof.
  destruct (first_success_in_input_order (U := SpecUtils.utils) unsorted
              [response "404" "undefined" []]
              [response "200" "Thing" []]
              (response "204" "undefined" [])) as [H1 [_ H3]].
  - reflexivity.
  - intros x [<-|[]] [_ H]. discriminate H.
  - split; reflexivity.
  - split; [exact H1 | exact H3].
Defined.

(** C3, as stated, fails: the status code [2XX] is not made of three
    decimal digits, and yet its entry is selected as the success response
    and the decoder block is emitted. *)
Lemma non_numeric_status_selected :
  threeDigitCode "2XX" = false
  /\ In (response "2XX" "Thing" []) (responses ranged)
  /\ firstSuccessType (responses ranged) = Some (response "2XX" "Thing" [])
  /\ renderDecoderCode (U := SpecUtils.utils) ranged <> EmptyString.
Proof.
  split; [reflexivity | split; [left; reflexivity | split; [reflexivity|]]].
  apply decoderBlock_not_empty.
Qed.

Lemma non_success_status_never_selected_witness :
  firstSuccessType [response "default" "Error" []; response "200" "Thing" []]
  = firstSuccessType [response "200" "Thing" []].
Proof.
  destruct (non_success_status_never_selected (U := SpecUtils.utils)
              (response "default" "Error" [])) as [_ [H _]].
  - left. cbn. lia.
  - exact (H [] [response "200" "Thing" []]).
Defined.

Lemma error_payload_uses_error_decoder_witness :
  getDecoderForResponse (U := SpecUtils.utils) (response "500" "Error" []) "type"
  = "r.basicErrorResponseDecoder<500>(500)"
  /\ getDecoderForResponse (U := SpecUtils.utils) (response "500" "Thing" []) "type"
     <> "r.basicErrorResponseDecoder<500>(500)".
Proof.
  destruct (error_payload_uses_error_decoder (U := SpecUtils.utils) "500" [] "type")
    as [H1 [_ H3]].
  split; [exact H1|].
  unfold response. rewrite (H3 "Thing"); discriminate.
Defined.

Lemma default_responses_map_witness :
  exists rest,
    renderDecoderCode (U := SpecUtils.utils) getThing
    = (template
         [nl; "      "; nl;
          "    export const getThingDefaultResponses = {"; nl;
          "      200: Thing, 404: t.undefined, 500: Error"; nl;
          "    };"; nl; "  "]
       ++ rest)%string.
Proof.
  exact (default_responses_map (U := SpecUtils.utils) getThing getThing_hasSuccess).
Defined.

Lemma responses_generic_type_witness :
  List.length (responsesTGenericsWithDefaultTypes (responses getThing)) = 6
  /\ occurs
       (template
          [nl;
           "    export type GetThingResponsesT<A0 = Thing, C0 = Thing, A1 = undefined, C1 = undefined, A2 = Error, C2 = Error> = {";
           nl;
           "      200: t.Type<A0, C0>, 404: t.Type<A1, C1>, 500: t.Type<A2, C2>";
           nl; "    };"; nl; "  "])
       (renderDecoderCode (U := SpecUtils.utils) getThing).
Proof.
  destruct (responses_generic_type (U := SpecUtils.utils) getThing getThing_hasSuccess)
    as [H1 [_ [_ [_ H5]]]].
  split; [exact H1 | exact H5].
Defined.

Lemma composed_chain_follows_input_order_witness :
  occurs
    (template
       ["        return r.composeResponseDecoders(r.composeResponseDecoders(d200, d404), d500)";
        nl; "      }"])
    (renderDecoderCode (U := SpecUtils.utils) getThing).
Proof.
  destruct (composed_chain_follows_input_order (U := SpecUtils.utils)
              (response "200" "Thing" [])
              [response "404" "undefined" []; response "500" "Error" []])
    as [_ [_ H]].
  exact (H getThing (response "200" "Thing" []) eq_refl eq_refl).
Defined.

Lemma optional_parameter_key_witness :
  exists pre post,
    name limitParam = (pre ++ "?" ++ post)%string
    /\ noQuestion pre
    /\ paramCode limitParam
       = template ["readonly "; dq; pre; post; dq; "?"; ": "; "number"].
Proof.
  destruct (optional_parameter_key (U := SpecUtils.utils) getThing true)
    as [_ [H _]].
  destruct (H limitParam) as [pre [post [H1 [H2 [H3 _]]]]].
  - cbn. tauto.
  - exists pre, post. split; [exact H1 | split; [exact H2 | exact H3]].
Defined.

(** C8, as stated, fails: the name [a?b?] contains the question mark, and
    the key of its property, [ab?], still holds one. *)
Lemma second_question_mark_kept :
  In "?"%char (list_ascii_of_string "a?b?")
  /\ paramCode
       {| name := "a?b?"; type := "string"; in_ := "query";
          headerName := None |}
     = template ["readonly "; dq; "ab?"; dq; "?: string"]
  /\ ~ noQuestion "ab?"
  /\ occurs
       (template ["<{readonly "; dq; "ab?"; dq; "?: string}, "])
       (renderOperation (U := SpecUtils.utils)
          (operation "find"
             [{| name := "a?b?"; type := "string"; in_ := "query";
                 headerName := None |}]
             [])
          false).
Proof.
  split; [right; left; reflexivity | split; [reflexivity | split]].
  - intros H. apply H. right. right. left. reflexivity.
  - exact (paramsCode_occurs (U := SpecUtils.utils)
             (operation "find"
                [{| name := "a?b?"; type := "string"; in_ := "query";
                    headerName := None |}]
                [])
             false).
Qed.

Lemma rendering_depends_only_on_input_witness :
  renderOperation (U := SpecUtils.utils) getThing true
  = renderOperation (U := SpecUtils.utils)
      {| method := get_; operationId := "getThing";
         parameters :=
           [{| name := "limit?"; type := "number"; in_ := "header";
               headerName := Some "X-Limit" |}; idParam];
         responses := responses getThing; headers := [];
         importedTypes := ["Thing"]; path := "/other";
         consumes := Some "application/json"; produces := None |}
      true.
Proof.
  apply rendering_depends_only_on_input; [|reflexivity].
  repeat split.
Defined.

Lemma duplicate_status_duplicate_bindings_witness :
  exists before between after,
    renderDecoderCode (U := SpecUtils.utils) twice
    = template
        [before; nl;
         "    const d200 = (";
         getDecoderForResponse (U := SpecUtils.utils)
           (response "200" "Thing" []) "type";
         ") as r.ResponseDecoder<r.IResponseType<200, A0, never>>;"; nl;
         "  "; between; nl;
         "    const d200 = (";
         getDecoderForResponse (U := SpecUtils.utils)
           (response "200" "Other" []) "type";
         ") as r.ResponseDecoder<r.IResponseType<200, A1, never>>;"; nl;
         "  "; after].
Proof.
  destruct (duplicate_status_duplicate_bindings (U := SpecUtils.utils) twice
              [] [] [] (response "200" "Thing" []) (response "200" "Other" [])
              twice_hasSuccess eq_refl eq_refl) as [_ [_ H]].
  exact H.
Defined.

Lemma decoder_flag_appends_block_witness :
  renderOperation (U := SpecUtils.utils) failing true
  = renderOperation (U := SpecUtils.utils) failing false.
Proof.
  destruct (decoder_flag_appends_block (U := SpecUtils.utils) failing)
    as [_ [_ [_ H]]].
  apply H. intros [r [[<-|[]] [_ Hr]]]. discriminate Hr.
Defined.

Lemma success_type_of_last_same_status_witness :
  responsesSuccessTContent (response "200" "Thing" []) (responses twice)
  = "t.Type<A1, C1>".
Proof.
  destruct (success_type_of_last_same_status (U := SpecUtils.utils) twice
              (response "200" "Thing" []) (response "200" "Other" [])
              [response "200" "Thing" []] [])
    as [H _].
  - reflexivity.
  - reflexivity.
  - reflexivity.
  - intros x [].
  - exact H.
Defined.

Lemma generic_parameters_distinct_witness :
  nth_error (responsesTGenerics (responses getThing)) 2 = Some "A1"
  /\ nth_error (responsesTGenerics (responses getThing)) 3 = Some "C1".
Proof.
  destruct (generic_parameters_distinct (responses getThing))
    as [_ [_ H]].
  exact (H 1 (response "404" "undefined" []) eq_refl).
Defined.

Lemma binding_matches_return_type_witness :
  occurs
    (template
       [nl;
        "    const d500 = (r.basicErrorResponseDecoder<500>(500)) as r.ResponseDecoder<r.IResponseType<500, A2, never>>;"])
    (renderDecoderCode (U := SpecUtils.utils) getThing).
Proof.
  destruct (binding_matches_return_type (U := SpecUtils.utils) getThing 2
              (response "500" "Error" []) getThing_hasSuccess eq_refl)
    as [H _].
  exact H.
Defined.

Lemma composed_chain_closed_form_witness :
  composedDecoders (responses getThing)
  = "r.composeResponseDecoders(r.composeResponseDecoders(d200, d404), d500)".
Proof.
  destruct (composed_chain_closed_form (responses getThing)) as [_ H].
  exact (H (response "200" "Thing" [])
           [response "404" "undefined" []; response "500" "Error" []]
           eq_refl).
Defined.

Lemma empty_operation_request_type_witness :
  renderOperation (U := SpecUtils.utils) (operation "ping" [] []) true
  = template
      [nl;
       "    /****************************************************************";
       nl; "     * ping"; nl; "     */"; nl; nl;
       "    // Request type definition"; nl;
       "    export type PingT = r.IGetApiRequestType<{}, never, never, >;";
       nl; "  "].
Proof.
  exact (empty_operation_request_type (U := SpecUtils.utils)
           (operation "ping" [] []) true eq_refl eq_refl eq_refl).
Defined.

Lemma question_mark_place_is_lost_witness :
  paramCode
    {| name := "li?mit"; type := "number"; in_ := "query";
       headerName := None |}
  = paramCode limitParam.
Proof.
  apply (question_mark_place_is_lost _ _ "li" "mit").
  - cbn. intros [H|[H|[]]]; discriminate H.
  - cbn. intros [H|[H|[H|[]]]]; discriminate H.
  - reflexivity.
  - reflexivity.
  - reflexivity.
Defined.

Lemma undefined_operations_skipped_witness :
  renderAllOperations (U := SpecUtils.utils) (P := Sets.keep)
    [Some getThing; None; Some failing] true
  = renderAllOperations (U := SpecUtils.utils) (P := Sets.keep)
      [Some getThing; Some failing] true.
Proof.
  destruct (undefined_operations_skipped (U := SpecUtils.utils)
              (P := Sets.keep) [Some getThing; None; Some failing] true)
    as [_ H].
  exact (H [Some getThing] [Some failing] eq_refl).
Defined.

Lemma imports_once_each_witness :
  In "Other"
    (operationsImports (U := SpecUtils.utils)
       [Some (Sets.importing "a" ["Thing"; "Other"]); None;
        Some (Sets.importing "b" ["Other"; "Extra"])]
       true).
Proof.
  destruct (imports_once_each (U := SpecUtils.utils) (P := Sets.keep)
              [Some (Sets.importing "a" ["Thing"; "Other"]); None;
               Some (Sets.importing "b" ["Other"; "Extra"])]
              true)
    as [_ [H _]].
  apply H. exists (Sets.importing "b" ["Other"; "Extra"]).
  split; [right; right; left; reflexivity | left; reflexivity].
Defined.
